(** * Verification of the zdm-proxy relay and control-channel core

    Two source files are embedded here:
    - the client connector of the proxy (package [cloudgateproxy]):
      [ClientConnector.run], [listenForRequests], [listenForResponses];
    - the update protocol of the migration service (package [updates]):
      [Update], [Serialize], [Success], [Failure], [Send] and
      [CommunicationHandler].

    Goroutines are embedded as functions from a script of the results their
    blocking calls return (frames read, payloads received, read results of a
    connection) to the trace of effects they perform and the way they end. *)

From Stdlib Require Import ZArith List Bool String Lia Arith.
From Stdlib Require Import Init.Byte Strings.Byte.
Import ListNotations.

Local Open Scope Z_scope.

(* ================================================================== *)
(** * The client connector                                             *)
(* ================================================================== *)

Module Relay.

(** Modelled from the spec: the [Frame] struct is declared outside the two
    source files. A frame has a direction taken from its header, the header
    bytes and the body bytes; direction [0] is client to backend. *)
Record Frame : Type := mkFrame {
  Direction : Z;
  FrameHeader : list byte;
  FrameBody : list byte
}.

(** The errors [readAndParseFrame] hands to the request loop. The loop
    compares the error with the two sentinels [ShutdownErr] and [io.EOF];
    every other error is told apart only by not being one of them. *)
Inductive error : Type :=
| ShutdownErr
| EOF
| ReadError (msg : string).

Definition is_ShutdownErr (e : error) : bool :=
  match e with ShutdownErr => true | _ => false end.

Definition is_EOF (e : error) : bool :=
  match e with EOF => true | _ => false end.

(** The result of one call of [readAndParseFrame]: a frame or an error. *)
Definition ReadResult : Type := (Frame + error)%type.

(** Effects of the connector on what it shares with the rest of the proxy:
    the client connection, the request channel, the wait group and the
    cancel function of the client handler context. *)
Inductive Event : Type :=
| ConnRemoteAddr                    (* cc.connection.RemoteAddr() *)
| ConnReadFrame                     (* readAndParseFrame(cc.connection, ...) *)
| ConnWrite (payload : list byte)   (* a write of the bytes on cc.connection *)
| ConnClose                         (* cc.connection.Close() *)
| WaitGroupAdd (delta : Z)          (* cc.waitGroup.Add(delta) *)
| WaitGroupDone                     (* cc.waitGroup.Done() *)
| RequestSend (f : Frame)           (* cc.requestChannel <- frame *)
| RequestClose                      (* close(cc.requestChannel) *)
| ResponseRecv (payload : list byte)(* response, ok := <-cc.responseChannel *)
| CancelFunc.                       (* cc.clientHandlerCancelFunc() *)

(** How a goroutine stands once its script is used up. *)
Inductive Status : Type :=
| Blocked      (* waiting in a blocking call that has not returned *)
| Stopped      (* the goroutine function has returned *)
| Panicked.    (* a run-time panic: index out of range *)

(** How the body of a [for] loop leaves the loop. *)
Inductive LoopExit : Type :=
| Waiting      (* still inside the loop, in a blocking call *)
| Return       (* [return] *)
| Break        (* [break] *)
| PanicExit.   (* run-time panic *)

(** ** [listenForRequests] *)

(** The [for] loop of the goroutine of [listenForRequests]. [reads] gives the
    results of the successive calls of [readAndParseFrame], and
    [ConnReadFrame] records a call that has returned; when [reads] is used up
    the goroutine is waiting in the next call. A send on the request channel
    is taken to complete (its consumer receives). *)
Fixpoint requestLoop (reads : list ReadResult) : list Event * LoopExit :=
  match reads with
  | [] => ([], Waiting)
  | inr err :: _ =>
      if is_ShutdownErr err then ([ConnReadFrame], Return)
      else
        (* the log call of the io.EOF branch evaluates RemoteAddr() *)
        let logged := if is_EOF err then [ConnRemoteAddr] else [] in
        (ConnReadFrame :: logged ++ [CancelFunc], Break)
  | inl frame :: rest =>
      let (evs, out) := requestLoop rest in
      if negb (Direction frame =? 0) then
        (* unexpected direction: log and continue *)
        (ConnReadFrame :: evs, out)
      else
        (ConnReadFrame :: RequestSend frame :: evs, out)
  end.

(** The deferred calls run in reverse order of their [defer] statements:
    [close(cc.requestChannel)] first, [cc.waitGroup.Done()] second. *)
Definition requestGoroutine (reads : list ReadResult) : list Event * Status :=
  let (evs, out) := requestLoop reads in
  match out with
  | Waiting => (evs, Blocked)
  | PanicExit => (evs, Panicked)
  | Return | Break => (evs ++ [RequestClose; WaitGroupDone], Stopped)
  end.


(** ** [listenForResponses] *)





(** ** [run] *)






(** ** Observations on traces *)

Definition sent (t : list Event) : list Frame :=
  flat_map (fun e => match e with RequestSend f => [f] | _ => [] end) t.



Definition is_RequestClose (e : Event) : bool :=
  match e with RequestClose => true | _ => false end.

Definition is_CancelFunc (e : Event) : bool :=
  match e with CancelFunc => true | _ => false end.

Definition is_ConnClose (e : Event) : bool :=
  match e with ConnClose => true | _ => false end.

Definition count (p : Event -> bool) (t : list Event) : nat :=
  List.length (filter p t).

(** The frames the request loop has read when it meets the first error. *)
Fixpoint framesRead (reads : list ReadResult) : list Frame :=
  match reads with
  | inl f :: rest => f :: framesRead rest
  | _ => []
  end.

(** The first error among the results, if there is one. *)
Fixpoint firstError (reads : list ReadResult) : option error :=
  match reads with
  | [] => None
  | inr e :: _ => Some e
  | inl _ :: rest => firstError rest
  end.

Definition clientOriginated (f : Frame) : bool := Direction f =? 0.



End Relay.

(* ================================================================== *)
(** * Bytes, and the library encodings the update protocol calls       *)
(* ================================================================== *)

(** The value of a byte, and the conversion [byte(x)] of an integer, which
    keeps the low eight bits. *)
Definition b2z (b : byte) : Z := Z.of_N (Byte.to_N b).

Definition z2b (z : Z) : byte :=
  match Byte.of_N (Z.to_N (z mod 256)) with
  | Some b => b
  | None => x00
  end.

(** The bytes of a string literal. *)
Definition bytes (s : string) : list byte := list_byte_of_string s.

Definition byte_eqb (a b : byte) : bool := b2z a =? b2z b.

Fixpoint bytes_eqb (a b : list byte) : bool :=
  match a, b with
  | [], [] => true
  | x :: a', y :: b' => byte_eqb x y && bytes_eqb a' b'
  | _, _ => false
  end.

(** ** [encoding/binary]: big-endian 32-bit integers *)

Module Binary.

Definition uint32 (z : Z) : Z := z mod 2 ^ 32.

(** [binary.BigEndian.PutUint32(b, v)]: the four bytes written to [b]. *)
Definition PutUint32 (v : Z) : list byte :=
  [z2b (Z.shiftr v 24); z2b (Z.shiftr v 16); z2b (Z.shiftr v 8); z2b v].

(** [binary.BigEndian.Uint32(b)] on a slice of four bytes. *)
Definition Uint32 (b : list byte) : Z :=
  match b with
  | [b0; b1; b2; b3] =>
      Z.lor (Z.lor (Z.lor (b2z b3) (Z.shiftl (b2z b2) 8))
                   (Z.shiftl (b2z b1) 16))
            (Z.shiftl (b2z b0) 24)
  | _ => 0
  end.

End Binary.

(** ** [unicode/utf8] *)

Module Utf8.

Definition RuneError : Z := 0xFFFD.
Definition MaxRune : Z := 0x10FFFF.

Definition between (lo hi : Z) (b : byte) : bool :=
  (lo <=? b2z b) && (b2z b <=? hi).

(** [utf8.DecodeRune]: the first rune of [p] and its width in bytes; an
    invalid or short encoding gives [(RuneError, 1)], the empty input
    [(RuneError, 0)]. *)
Definition DecodeRune (p : list byte) : Z * nat :=
  match p with
  | [] => (RuneError, 0%nat)
  | p0 :: t =>
      let c0 := b2z p0 in
      if c0 <? 0x80 then (c0, 1%nat)
      else if c0 <? 0xC2 then (RuneError, 1%nat)
      else if c0 <? 0xE0 then
        match t with
        | b1 :: _ =>
            if between 0x80 0xBF b1 then
              (Z.lor (Z.shiftl (Z.land c0 0x1F) 6) (Z.land (b2z b1) 0x3F), 2%nat)
            else (RuneError, 1%nat)
        | _ => (RuneError, 1%nat)
        end
      else if c0 <? 0xF0 then
        let lo := if c0 =? 0xE0 then 0xA0 else 0x80 in
        let hi := if c0 =? 0xED then 0x9F else 0xBF in
        match t with
        | b1 :: b2 :: _ =>
            if between lo hi b1 && between 0x80 0xBF b2 then
              (Z.lor (Z.lor (Z.shiftl (Z.land c0 0x0F) 12)
                            (Z.shiftl (Z.land (b2z b1) 0x3F) 6))
                     (Z.land (b2z b2) 0x3F), 3%nat)
            else (RuneError, 1%nat)
        | _ => (RuneError, 1%nat)
        end
      else if c0 <? 0xF5 then
        let lo := if c0 =? 0xF0 then 0x90 else 0x80 in
        let hi := if c0 =? 0xF4 then 0x8F else 0xBF in
        match t with
        | b1 :: b2 :: b3 :: _ =>
            if between lo hi b1 && between 0x80 0xBF b2 && between 0x80 0xBF b3
            then
              (Z.lor (Z.lor (Z.lor (Z.shiftl (Z.land c0 0x07) 18)
                                   (Z.shiftl (Z.land (b2z b1) 0x3F) 12))
                            (Z.shiftl (Z.land (b2z b2) 0x3F) 6))
                     (Z.land (b2z b3) 0x3F), 4%nat)
            else (RuneError, 1%nat)
        | _ => (RuneError, 1%nat)
        end
      else (RuneError, 1%nat)
  end.

Definition encode3 (r : Z) : list byte :=
  [z2b (Z.lor 0xE0 (Z.shiftr r 12));
   z2b (Z.lor 0x80 (Z.land (Z.shiftr r 6) 0x3F));
   z2b (Z.lor 0x80 (Z.land r 0x3F))].

(** [utf8.EncodeRune]: the bytes written for the rune [r]. *)
Definition EncodeRune (r : Z) : list byte :=
  if (0 <=? r) && (r <=? 0x7F) then [z2b r]
  else if (0 <=? r) && (r <=? 0x7FF) then
    [z2b (Z.lor 0xC0 (Z.shiftr r 6)); z2b (Z.lor 0x80 (Z.land r 0x3F))]
  else if (r <? 0) || (MaxRune <? r) || ((0xD800 <=? r) && (r <=? 0xDFFF)) then
    encode3 RuneError
  else if r <=? 0xFFFF then encode3 r
  else
    [z2b (Z.lor 0xF0 (Z.shiftr r 18));
     z2b (Z.lor 0x80 (Z.land (Z.shiftr r 12) 0x3F));
     z2b (Z.lor 0x80 (Z.land (Z.shiftr r 6) 0x3F));
     z2b (Z.lor 0x80 (Z.land r 0x3F))].

(** A string is valid UTF-8 when no position decodes to an encoding error
    ([utf8.ValidString]). *)
Fixpoint validFrom (fuel : nat) (s : list byte) : bool :=
  match fuel, s with
  | _, [] => true
  | O, _ :: _ => false
  | S fuel', _ :: _ =>
      let (c, size) := DecodeRune s in
      if (c =? RuneError) && (size =? 1)%nat then false
      else validFrom fuel' (skipn size s)
  end.

Definition Valid (s : list byte) : bool := validFrom (List.length s) s.

End Utf8.

(** ** [encoding/base64]: the standard encoding, with padding *)

Module Base64.

Definition encodeStd : list byte :=
  bytes "ABCDEFGHIJKLMNOPQRSTUVWXYZabcdefghijklmnopqrstuvwxyz0123456789+/".

Definition enc (v : Z) : byte := nth (Z.to_nat (Z.land v 0x3F)) encodeStd x41.

Definition pad : byte := x3d.

(** [base64.StdEncoding.EncodeToString]. *)
Fixpoint Encode (src : list byte) : list byte :=
  match src with
  | [] => []
  | [a] =>
      let val := Z.shiftl (b2z a) 16 in
      [enc (Z.shiftr val 18); enc (Z.shiftr val 12); pad; pad]
  | [a; b] =>
      let val := Z.lor (Z.shiftl (b2z a) 16) (Z.shiftl (b2z b) 8) in
      [enc (Z.shiftr val 18); enc (Z.shiftr val 12); enc (Z.shiftr val 6); pad]
  | a :: b :: c :: t =>
      let val := Z.lor (Z.lor (Z.shiftl (b2z a) 16) (Z.shiftl (b2z b) 8))
                       (b2z c) in
      enc (Z.shiftr val 18) :: enc (Z.shiftr val 12) ::
      enc (Z.shiftr val 6) :: enc val :: Encode t
  end.

(** The value of a character of the alphabet. *)
Definition dec (c : byte) : option Z :=
  let v := b2z c in
  if (0x41 <=? v) && (v <=? 0x5A) then Some (v - 0x41)
  else if (0x61 <=? v) && (v <=? 0x7A) then Some (v - 0x61 + 26)
  else if (0x30 <=? v) && (v <=? 0x39) then Some (v - 0x30 + 52)
  else match c with
       | x2b => Some 62
       | x2f => Some 63
       | _ => None
       end.

Definition isNewline (c : byte) : bool :=
  match c with x0a | x0d => true | _ => false end.

(** The quanta of four characters, after the new-line characters have been
    dropped. Padding is accepted in the last quantum only. *)
Fixpoint decodeQuanta (s : list byte) : option (list byte) :=
  match s with
  | [] => Some []
  | c0 :: c1 :: c2 :: c3 :: t =>
      match dec c0, dec c1 with
      | Some v0, Some v1 =>
          match dec c2, dec c3 with
          | Some v2, Some v3 =>
              let val := Z.lor (Z.lor (Z.lor (Z.shiftl v0 18) (Z.shiftl v1 12))
                                      (Z.shiftl v2 6)) v3 in
              match decodeQuanta t with
              | Some out =>
                  Some (z2b (Z.shiftr val 16) :: z2b (Z.shiftr val 8) ::
                        z2b val :: out)
              | None => None
              end
          | Some v2, None =>
              match c3, t with
              | x3d, [] =>
                  let val := Z.lor (Z.lor (Z.shiftl v0 18) (Z.shiftl v1 12))
                                   (Z.shiftl v2 6) in
                  Some [z2b (Z.shiftr val 16); z2b (Z.shiftr val 8)]
              | _, _ => None
              end
          | None, _ =>
              match c2, c3, t with
              | x3d, x3d, [] =>
                  let val := Z.lor (Z.shiftl v0 18) (Z.shiftl v1 12) in
                  Some [z2b (Z.shiftr val 16)]
              | _, _, _ => None
              end
          end
      | _, _ => None
      end
  | _ => None
  end.

(** [base64.StdEncoding.Decode]: new-line characters are ignored. *)
Definition Decode (s : list byte) : option (list byte) :=
  decodeQuanta (filter (fun c => negb (isNewline c)) s).

End Base64.

(** ** [encoding/json]: the text format *)

Module Json.

Import Utf8.

(** A parsed JSON text. Strings and keys are kept unquoted, numbers as
    their literal. *)
#[local] Unset Elimination Schemes.
Inductive Value : Type :=
| Null
| Bool (b : bool)
| Number (lit : list byte)
| Str (s : list byte)
| Array (vs : list Value)
| Object (ms : list (list byte * Value)).
#[local] Set Elimination Schemes.

(** *** Writing a string *)

Definition hex : list byte := bytes "0123456789abcdef".

Definition hexdigit (n : Z) : byte := nth (Z.to_nat n) hex x30.

(** [htmlSafeSet]: the ASCII characters written as they are. The quote, the
    backslash, [<], [>], [&] and the control characters are not. *)
Definition htmlSafeSet (b : byte) : bool :=
  match b with
  | x22 | x26 | x3c | x3e | x5c => false
  | _ => (0x20 <=? b2z b) && (b2z b <? 0x80)
  end.

(** The escape written for an ASCII character outside [htmlSafeSet]. *)
Definition escapeByte (b : byte) : list byte :=
  x5c ::
  match b with
  | x5c | x22 => [b]
  | x0a => [x6e]
  | x0d => [x72]
  | x09 => [x74]
  | _ => [x75; x30; x30;
          hexdigit (Z.shiftr (b2z b) 4); hexdigit (Z.land (b2z b) 0xF)]
  end.

(** The text of the escape of U+FFFD, and the first five characters of the
    escapes of U+2028 and U+2029. *)
Definition escapeFFFD : list byte := [x5c; x75; x66; x66; x66; x64].

Definition escape202 : list byte := [x5c; x75; x32; x30; x32].

(** The loop of [encodeState.string] with HTML escaping on. A byte that is
    not the start of a valid UTF-8 encoding is written as the escape of
    U+FFFD; U+2028 and U+2029 are escaped; every other rune is copied. *)
Fixpoint quoteBody (fuel : nat) (s : list byte) : list byte :=
  match fuel, s with
  | S fuel', b :: t =>
      if b2z b <? 0x80 then
        (if htmlSafeSet b then [b] else escapeByte b) ++ quoteBody fuel' t
      else
        let (c, size) := DecodeRune s in
        if (c =? RuneError) && (size =? 1)%nat then
          escapeFFFD ++ quoteBody fuel' t
        else if (c =? 0x2028) || (c =? 0x2029) then
          escape202 ++ [hexdigit (Z.land c 0xF)]
            ++ quoteBody fuel' (skipn size s)
        else
          firstn size s ++ quoteBody fuel' (skipn size s)
  | _, _ => []
  end.

Definition encodeString (s : list byte) : list byte :=
  x22 :: quoteBody (List.length s) s ++ [x22].

(** *** Writing an integer ([strconv.AppendInt], base 10) *)

Fixpoint digits (u : Decimal.uint) : list byte :=
  match u with
  | Decimal.Nil => []
  | Decimal.D0 u' => x30 :: digits u'
  | Decimal.D1 u' => x31 :: digits u'
  | Decimal.D2 u' => x32 :: digits u'
  | Decimal.D3 u' => x33 :: digits u'
  | Decimal.D4 u' => x34 :: digits u'
  | Decimal.D5 u' => x35 :: digits u'
  | Decimal.D6 u' => x36 :: digits u'
  | Decimal.D7 u' => x37 :: digits u'
  | Decimal.D8 u' => x38 :: digits u'
  | Decimal.D9 u' => x39 :: digits u'
  end.

Definition FormatInt (i : Z) : list byte :=
  match Z.to_int i with
  | Decimal.Pos u => digits u
  | Decimal.Neg u => x2d :: digits u
  end.

(** *** Reading: the scanner *)

Definition isSpace (c : byte) : bool :=
  match c with x20 | x09 | x0d | x0a => true | _ => false end.

Fixpoint skipSpace (s : list byte) : list byte :=
  match s with
  | c :: t => if isSpace c then skipSpace t else s
  | [] => []
  end.

Definition isDigit (c : byte) : bool := between 0x30 0x39 c.

Definition hexval (c : byte) : option Z :=
  if between 0x30 0x39 c then Some (b2z c - 0x30)
  else if between 0x61 0x66 c then Some (b2z c - 0x61 + 10)
  else if between 0x41 0x46 c then Some (b2z c - 0x41 + 10)
  else None.

Definition isHex (c : byte) : bool :=
  match hexval c with Some _ => true | None => false end.

Definition consFst {A B : Type} (a : A) (r : option (list A * B))
  : option (list A * B) :=
  match r with
  | Some (l, b) => Some (a :: l, b)
  | None => None
  end.

(** The scanner inside a string literal, from after the opening quote: the
    raw text of the literal and what follows the closing quote. Control
    characters and escapes other than the JSON ones are syntax errors. *)
Fixpoint scanString (s : list byte) : option (list byte * list byte) :=
  match s with
  | [] => None
  | x22 :: t => Some ([], t)
  | x5c :: t =>
      match t with
      | x75 :: h1 :: h2 :: h3 :: h4 :: t' =>
          if isHex h1 && isHex h2 && isHex h3 && isHex h4 then
            consFst x5c (consFst x75 (consFst h1 (consFst h2 (consFst h3
              (consFst h4 (scanString t'))))))
          else None
      | e :: t' =>
          match e with
          | x22 | x5c | x2f | x62 | x66 | x6e | x72 | x74 =>
              consFst x5c (consFst e (scanString t'))
          | _ => None
          end
      | [] => None
      end
  | c :: t => if b2z c <? 0x20 then None else consFst c (scanString t)
  end.

Fixpoint takeDigits (s : list byte) : list byte * list byte :=
  match s with
  | c :: t =>
      if isDigit c then let (ds, r) := takeDigits t in (c :: ds, r)
      else ([], s)
  | [] => ([], [])
  end.

(** The scanner on a number literal: an optional minus sign, an integer
    part without leading zero, an optional fraction, an optional exponent. *)
Definition scanNumber (s : list byte) : option (list byte * list byte) :=
  let (sign, s1) :=
    match s with x2d :: t => ([x2d], t) | _ => ([], s) end in
  let intPart :=
    match s1 with
    | x30 :: t => Some ([x30], t)
    | c :: t =>
        if isDigit c then let (ds, r) := takeDigits t in Some (c :: ds, r)
        else None
    | [] => None
    end in
  match intPart with
  | None => None
  | Some (ip, r1) =>
      let fracPart :=
        match r1 with
        | x2e :: t =>
            match takeDigits t with
            | ([], _) => None
            | (ds, r) => Some (x2e :: ds, r)
            end
        | _ => Some ([], r1)
        end in
      match fracPart with
      | None => None
      | Some (fp, r2) =>
          let expPart :=
            match r2 with
            | e :: t =>
                match e with
                | x65 | x45 =>
                    let (sg, t') :=
                      match t with
                      | x2b :: t' => ([x2b], t')
                      | x2d :: t' => ([x2d], t')
                      | _ => ([], t)
                      end in
                    match takeDigits t' with
                    | ([], _) => None
                    | (ds, r) => Some (e :: sg ++ ds, r)
                    end
                | _ => Some ([], r2)
                end
            | [] => Some ([], r2)
            end in
          match expPart with
          | None => None
          | Some (ep, r3) => Some (sign ++ ip ++ fp ++ ep, r3)
          end
      end
  end.

(** *** Reading: unquoting a string literal *)

(** [getu4]: the value of a [\uXXXX] escape at the head of [s], or [-1]. *)
Definition getu4 (s : list byte) : Z :=
  match s with
  | x5c :: x75 :: h1 :: h2 :: h3 :: h4 :: _ =>
      match hexval h1, hexval h2, hexval h3, hexval h4 with
      | Some a, Some b, Some c, Some d => ((a * 16 + b) * 16 + c) * 16 + d
      | _, _, _, _ => -1
      end
  | _ => -1
  end.

Definition IsSurrogate (r : Z) : bool := (0xD800 <=? r) && (r <? 0xE000).

(** [utf16.DecodeRune]: the rune of a surrogate pair, or U+FFFD. *)
Definition utf16DecodeRune (r1 r2 : Z) : Z :=
  if (0xD800 <=? r1) && (r1 <? 0xDC00) && (0xDC00 <=? r2) && (r2 <? 0xE000)
  then Z.lor (Z.shiftl (r1 - 0xD800) 10) (r2 - 0xDC00) + 0x10000
  else RuneError.

Definition appOpt (a : list byte) (r : option (list byte))
  : option (list byte) :=
  match r with
  | Some l => Some (a ++ l)
  | None => None
  end.

(** The loop of [unquoteBytes] on the raw text of a literal. An escape is
    replaced by its character, an ASCII character is copied, and any other
    byte is decoded as UTF-8 and written again, so that a byte that is not
    valid UTF-8 becomes U+FFFD. *)
Fixpoint unquoteBody (fuel : nat) (s : list byte) : option (list byte) :=
  match fuel, s with
  | _, [] => Some []
  | O, _ :: _ => None
  | S fuel', c :: t =>
      match c with
      | x5c =>
          match t with
          | [] => None
          | e :: t' =>
              match e with
              | x22 | x5c | x2f | x27 => appOpt [e] (unquoteBody fuel' t')
              | x62 => appOpt [x08] (unquoteBody fuel' t')
              | x66 => appOpt [x0c] (unquoteBody fuel' t')
              | x6e => appOpt [x0a] (unquoteBody fuel' t')
              | x72 => appOpt [x0d] (unquoteBody fuel' t')
              | x74 => appOpt [x09] (unquoteBody fuel' t')
              | x75 =>
                  let rr := getu4 s in
                  if rr <? 0 then None
                  else
                    let s6 := skipn 6 s in
                    if IsSurrogate rr then
                      let dec := utf16DecodeRune rr (getu4 s6) in
                      if negb (dec =? RuneError) then
                        appOpt (EncodeRune dec) (unquoteBody fuel' (skipn 6 s6))
                      else
                        appOpt (EncodeRune RuneError) (unquoteBody fuel' s6)
                    else appOpt (EncodeRune rr) (unquoteBody fuel' s6)
              | _ => None
              end
          end
      | x22 => None
      | _ =>
          if b2z c <? 0x20 then None
          else if b2z c <? 0x80 then appOpt [c] (unquoteBody fuel' t)
          else
            let (rr, size) := DecodeRune s in
            appOpt (EncodeRune rr) (unquoteBody fuel' (skipn size s))
      end
  end.

Definition unquote (raw : list byte) : option (list byte) :=
  unquoteBody (List.length raw) raw.

(** *** Reading: values *)

Definition startsNumber (c : byte) : bool :=
  match c with x2d => true | _ => isDigit c end.

(** The parser of a value, of the members of an object after its opening
    brace and of the elements of an array after its opening bracket. Each
    nested call follows at least one byte read, so that the length of the
    text, plus one, is fuel enough. *)
Fixpoint parseValue (fuel : nat) (s : list byte) : option (Value * list byte) :=
  match fuel with
  | O => None
  | S fuel' =>
      match skipSpace s with
      | [] => None
      | c :: t =>
          match c with
          | x7b =>
              match skipSpace t with
              | x7d :: r => Some (Object [], r)
              | _ =>
                  match parseMembers fuel' t with
                  | Some (ms, r) => Some (Object ms, r)
                  | None => None
                  end
              end
          | x5b =>
              match skipSpace t with
              | x5d :: r => Some (Array [], r)
              | _ =>
                  match parseElements fuel' t with
                  | Some (vs, r) => Some (Array vs, r)
                  | None => None
                  end
              end
          | x22 =>
              match scanString t with
              | Some (raw, r) =>
                  match unquote raw with
                  | Some str => Some (Str str, r)
                  | None => None
                  end
              | None => None
              end
          | x74 =>
              match t with
              | x72 :: x75 :: x65 :: r => Some (Bool true, r)
              | _ => None
              end
          | x66 =>
              match t with
              | x61 :: x6c :: x73 :: x65 :: r => Some (Bool false, r)
              | _ => None
              end
          | x6e =>
              match t with
              | x75 :: x6c :: x6c :: r => Some (Null, r)
              | _ => None
              end
          | _ =>
              if startsNumber c then
                match scanNumber (c :: t) with
                | Some (lit, r) => Some (Number lit, r)
                | None => None
                end
              else None
          end
      end
  end

with parseMembers (fuel : nat) (s : list byte)
  : option (list (list byte * Value) * list byte) :=
  match fuel with
  | O => None
  | S fuel' =>
      match skipSpace s with
      | x22 :: t =>
          match scanString t with
          | Some (raw, r) =>
              match unquote raw, skipSpace r with
              | Some key, x3a :: r1 =>
                  match parseValue fuel' r1 with
                  | Some (v, r2) =>
                      match skipSpace r2 with
                      | x2c :: r3 =>
                          match parseMembers fuel' r3 with
                          | Some (ms, r4) => Some ((key, v) :: ms, r4)
                          | None => None
                          end
                      | x7d :: r3 => Some ([(key, v)], r3)
                      | _ => None
                      end
                  | None => None
                  end
              | _, _ => None
              end
          | None => None
          end
      | _ => None
      end
  end

with parseElements (fuel : nat) (s : list byte)
  : option (list Value * list byte) :=
  match fuel with
  | O => None
  | S fuel' =>
      match parseValue fuel' s with
      | Some (v, r) =>
          match skipSpace r with
          | x2c :: r1 =>
              match parseElements fuel' r1 with
              | Some (vs, r2) => Some (v :: vs, r2)
              | None => None
              end
          | x5d :: r1 => Some ([v], r1)
          | _ => None
          end
      | None => None
      end
  end.

(** [checkValid] and the scan of the decoder: the text is one value, with
    white space around it and nothing else. *)
Definition parse (data : list byte) : option Value :=
  match parseValue (S (List.length data)) data with
  | Some (v, r) =>
      match skipSpace r with
      | [] => Some v
      | _ :: _ => None
      end
  | None => None
  end.

(** *** Reading an integer ([strconv.ParseInt], base 10, 64 bits) *)

Fixpoint readDigits (s : list byte) : option Decimal.uint :=
  match s with
  | [] => Some Decimal.Nil
  | c :: t =>
      match readDigits t with
      | None => None
      | Some u =>
          match c with
          | x30 => Some (Decimal.D0 u)
          | x31 => Some (Decimal.D1 u)
          | x32 => Some (Decimal.D2 u)
          | x33 => Some (Decimal.D3 u)
          | x34 => Some (Decimal.D4 u)
          | x35 => Some (Decimal.D5 u)
          | x36 => Some (Decimal.D6 u)
          | x37 => Some (Decimal.D7 u)
          | x38 => Some (Decimal.D8 u)
          | x39 => Some (Decimal.D9 u)
          | _ => None
          end
      end
  end.

Definition ParseInt (s : list byte) : option Z :=
  let r :=
    match s with
    | [] => None
    | x2d :: t =>
        match t with
        | [] => None
        | _ => option_map (fun u => Z.of_int (Decimal.Neg u)) (readDigits t)
        end
    | x2b :: t =>
        match t with
        | [] => None
        | _ => option_map (fun u => Z.of_int (Decimal.Pos u)) (readDigits t)
        end
    | _ => option_map (fun u => Z.of_int (Decimal.Pos u)) (readDigits s)
    end in
  match r with
  | Some n => if (- 2 ^ 63 <=? n) && (n <? 2 ^ 63) then Some n else None
  | None => None
  end.

(** [strconv.ParseUint] of an element of a byte array, with the overflow
    check for [uint8]. *)
Definition ParseUint8 (s : list byte) : option byte :=
  match s with
  | [] => None
  | _ =>
      match readDigits s with
      | Some u =>
          let n := Z.of_int (Decimal.Pos u) in
          if n <=? 255 then Some (z2b n) else None
      | None => None
      end
  end.

End Json.

(* ================================================================== *)
(** * [github.com/jpillora/backoff]                                    *)
(* ================================================================== *)

Module Backoff.





End Backoff.

(* ================================================================== *)
(** * The update protocol                                              *)
(* ================================================================== *)

Module Updates.

(** ** Updates *)

Definition UpdateType : Type := Z.

Definition TableUpdate : UpdateType := 0.
Definition TableRestart : UpdateType := 1.
Definition Start : UpdateType := 2.
Definition Complete : UpdateType := 3.
Definition Shutdown : UpdateType := 4.
Definition Success : UpdateType := 5.
Definition Failure : UpdateType := 6.

(** [Type] is a keyword, hence [Type_]. [Data] is a slice: [None] is the
    nil slice, [Some []] an empty one. *)
Record Update : Type := mkUpdate {
  ID : string;
  Type_ : UpdateType;
  Data : option (list byte);
  Error : string
}.

(** The zero value of the struct ([var update Update]). *)
Definition zeroUpdate : Update :=
  {| ID := EmptyString; Type_ := 0; Data := None; Error := EmptyString |}.

(** A Go [error]: [None] is [nil], [Some msg] an error whose [Error()] is
    [msg]. *)
Definition goerror : Type := option string.

(** ** [json.Marshal] and [json.Unmarshal] on an [Update] *)

Definition key (name : string) : list byte :=
  x22 :: bytes name ++ [x22; x3a].

(** The text [json.Marshal] writes for the struct: its four exported
    fields, in the order of their declaration, under their own names; a
    byte slice is written as a base64 string, a nil slice as [null]. *)
Definition marshalText (u : Update) : list byte :=
  [x7b] ++ key "ID" ++ Json.encodeString (bytes (ID u)) ++
  [x2c] ++ key "Type" ++ Json.FormatInt (Type_ u) ++
  [x2c] ++ key "Data" ++
    match Data u with
    | None => bytes "null"
    | Some d => x22 :: Base64.Encode d ++ [x22]
    end ++
  [x2c] ++ key "Error" ++ Json.encodeString (bytes (Error u)) ++
  [x7d].

(** [json.Marshal] does not fail on this struct. *)
Definition json_Marshal (u : Update) : list byte * goerror :=
  (marshalText u, None).

Definition lower (c : byte) : Z :=
  if Utf8.between 0x41 0x5A c then b2z c + 0x20 else b2z c.

(** A key names a field when it is the name of the field up to the case of
    the letters. *)
Fixpoint equalFold (name k : list byte) : bool :=
  match name, k with
  | [], [] => true
  | a :: name', b :: k' => (lower a =? lower b) && equalFold name' k'
  | _, _ => false
  end.

Fixpoint byteElements (vs : list Json.Value) : option (list byte) :=
  match vs with
  | [] => Some []
  | v :: vs' =>
      let elt :=
        match v with
        | Json.Null => Some x00
        | Json.Number lit => Json.ParseUint8 lit
        | _ => None
        end in
      match elt, byteElements vs' with
      | Some b, Some bs => Some (b :: bs)
      | _, _ => None
      end
  end.

(** One member of the object stored in the struct. [None] is an error of
    [json.Unmarshal]: a value of the wrong kind for the field, a number that
    is no 64-bit integer, a string that is not base64. [null] leaves a
    string or an integer as it is and makes the slice nil; a key that names
    no field is skipped. *)
Definition setField (u : Update) (k : list byte) (v : Json.Value)
  : option Update :=
  if equalFold (bytes "ID") k then
    match v with
    | Json.Null => Some u
    | Json.Str s =>
        Some {| ID := string_of_list_byte s; Type_ := Type_ u;
                Data := Data u; Error := Error u |}
    | _ => None
    end
  else if equalFold (bytes "Type") k then
    match v with
    | Json.Null => Some u
    | Json.Number lit =>
        match Json.ParseInt lit with
        | Some n =>
            Some {| ID := ID u; Type_ := n; Data := Data u; Error := Error u |}
        | None => None
        end
    | _ => None
    end
  else if equalFold (bytes "Data") k then
    match v with
    | Json.Null =>
        Some {| ID := ID u; Type_ := Type_ u; Data := None; Error := Error u |}
    | Json.Str s =>
        match Base64.Decode s with
        | Some d =>
            Some {| ID := ID u; Type_ := Type_ u; Data := Some d;
                    Error := Error u |}
        | None => None
        end
    | Json.Array vs =>
        match byteElements vs with
        | Some d =>
            Some {| ID := ID u; Type_ := Type_ u; Data := Some d;
                    Error := Error u |}
        | None => None
        end
    | _ => None
    end
  else if equalFold (bytes "Error") k then
    match v with
    | Json.Null => Some u
    | Json.Str s =>
        Some {| ID := ID u; Type_ := Type_ u; Data := Data u;
                Error := string_of_list_byte s |}
    | _ => None
    end
  else Some u.

Fixpoint setFields (u : Update) (ms : list (list byte * Json.Value))
  : option Update :=
  match ms with
  | [] => Some u
  | (k, v) :: ms' =>
      match setField u k v with
      | Some u' => setFields u' ms'
      | None => None
      end
  end.

(** [json.Unmarshal(buf, &update)] on the zero value of the struct: the
    decoded update, or [None] when it returns an error. *)
Definition json_Unmarshal (buf : list byte) : option Update :=
  match Json.parse buf with
  | None => None
  | Some Json.Null => Some zeroUpdate
  | Some (Json.Object ms) => setFields zeroUpdate ms
  | Some _ => None
  end.

(** ** [Serialize], [Success], [Failure] *)

Definition Update_Serialize (u : Update) : list byte * goerror :=
  let (marshaled, err) := json_Marshal u in
  match err with
  | Some e => ([], Some e)
  | None =>
      let length :=
        Binary.PutUint32 (Binary.uint32 (Z.of_nat (List.length marshaled))) in
      let withLen := length ++ marshaled in
      (withLen, None)
  end.

Definition Update_Success (u : Update) : list byte * goerror :=
  let resp := {| ID := ID u; Type_ := Success; Data := None; Error := EmptyString |} in
  Update_Serialize resp.

(** The result of a call that may end in a run-time panic. *)
Inductive Call (A : Type) : Type :=
| Returns (a : A)
| NilDereference.   (* panic: invalid memory address or nil pointer dereference *)

Arguments Returns {A} a.
Arguments NilDereference {A}.

(** [Failure] calls [err.Error()]: on a nil [err] this is a run-time
    panic. *)
Definition Update_Failure (u : Update) (err : goerror)
  : Call (list byte * goerror) :=
  match err with
  | None => NilDereference
  | Some text =>
      let resp :=
        {| ID := ID u; Type_ := Failure; Data := None; Error := text |} in
      Returns (Update_Serialize resp)
  end.

(** ** [Send] *)

Inductive SendEvent : Type :=
| DstWriteUpdate (b : list byte)   (* dst.Write(marshaledUpdate) *)
| Sleep (d : Z).                   (* time.Sleep(duration) *)





(** The delays of a trace, in order. *)
Definition delays (t : list SendEvent) : list Z :=
  flat_map (fun e => match e with Sleep d => [d] | _ => [] end) t.

(** ** [CommunicationHandler] *)

Inductive IOError : Type :=
| EOF
| OtherError (msg : string).

Definition is_EOF (e : option IOError) : bool :=
  match e with Some EOF => true | _ => false end.

(** The source connection: what its stream delivers, in segments; each
    segment is some data and possibly an error reported with it. *)
Definition Conn : Type := list (list byte * option IOError).

(** [src.Read(buf)] for a buffer of [n] bytes: the bytes read, the error,
    and the connection afterwards; [None] when the call does not return
    (nothing left to deliver). A read into an empty buffer returns at once;
    a segment larger than the buffer is read in part; the end of the stream
    is reported again by every later read. *)
Definition Read (n : nat) (src : Conn)
  : option (list byte * option IOError * Conn) :=
  match n with
  | O => Some ([], None, src)
  | S _ =>
      match src with
      | [] => None
      | (data, err) :: rest =>
          if (List.length data <=? n)%nat then
            match data, err with
            | [], Some EOF => Some ([], Some EOF, src)
            | _, Some EOF => Some (data, Some EOF, ([], Some EOF) :: rest)
            | _, _ => Some (data, err, rest)
            end
          else Some (firstn n data, None, (skipn n data, err) :: rest)
      end
  end.

Inductive Event : Type :=
| HandlerCall (u : Update)        (* handler(&update) *)
| DstWrite (resp : list byte)     (* dst.Write(resp) *)
| SrcClose.                       (* the deferred src.Close() *)

Inductive Outcome : Type :=
| Reading              (* waiting in src.Read *)
| Exit (code : Z)      (* os.Exit(code) *)
| Panic                (* run-time panic, after the deferred calls *)
| OutOfFuel.

Definition isAck (t : UpdateType) : bool :=
  negb (negb (t =? Success) && negb (t =? Failure)).

(** The handler is given a pointer to the update: it returns the update as
    it leaves it, and its error. *)
Definition Handler : Type := Update -> Update * goerror.

(** The [for] loop of [CommunicationHandler]. [length] is the four-byte
    buffer, which the loop reuses. *)
Fixpoint handlerLoop (fuel : nat) (handler : Handler) (length : list byte)
    (src : Conn) : list Event * Outcome :=
  match fuel with
  | O => ([], OutOfFuel)
  | S fuel' =>
      match Read 4 src with
      | None => ([], Reading)
      | Some (data, err, src1) =>
          let length := data ++ skipn (List.length data) length in
          let bytesRead := Z.of_nat (List.length data) in
          if is_EOF err then ([], Exit 100)
          else if bytesRead <? 4 then handlerLoop fuel' handler length src1
          else
            let updateLen := Binary.Uint32 length in
            match Read (Z.to_nat updateLen) src1 with
            | None => ([], Reading)
            | Some (buf, _, src2) =>
                let bytesRead := Z.of_nat (List.length buf) in
                if Binary.uint32 bytesRead <? updateLen then
                  handlerLoop fuel' handler length src2
                else
                  match json_Unmarshal buf with
                  | None => handlerLoop fuel' handler length src2
                  | Some update =>
                      (* json.Unmarshal returned nil *)
                      let err : goerror := None in
                      let (update, handlerErr) := handler update in
                      if negb (Type_ update =? Success)
                         && negb (Type_ update =? Failure) then
                        let call :=
                          match handlerErr with
                          | Some _ => Update_Failure update err
                          | None => Returns (Update_Success update)
                          end in
                        match call with
                        | NilDereference =>
                            ([HandlerCall update; SrcClose], Panic)
                        | Returns (resp, _) =>
                            let (evs, out) :=
                              handlerLoop fuel' handler length src2 in
                            (HandlerCall update :: DstWrite resp :: evs, out)
                        end
                      else
                        let (evs, out) :=
                          handlerLoop fuel' handler length src2 in
                        (HandlerCall update :: evs, out)
                  end
            end
      end
  end.

(** Every pass of the loop reads from the stream or ends the loop, so the
    size of what the connection delivers bounds the number of passes. *)
Definition size (src : Conn) : nat :=
  fold_right (fun seg n => (S (List.length (fst seg)) + n)%nat) O src.

Definition CommunicationHandler (src : Conn) (handler : Handler)
  : list Event * Outcome :=
  handlerLoop (S (size src)) handler [x00; x00; x00; x00] src.

Definition dstWrites (t : list Event) : list (list byte) :=
  flat_map (fun e => match e with DstWrite r => [r] | _ => [] end) t.

(** What [CommunicationHandler] does with the bytes of one message: the
    length prefix is taken off and the body decoded. *)
Definition deserialize (msg : list byte) : option Update :=
  let length := firstn 4 msg in
  if (List.length length <? 4)%nat then None
  else
    let updateLen := Binary.Uint32 length in
    let buf := firstn (Z.to_nat updateLen) (skipn 4 msg) in
    if Binary.uint32 (Z.of_nat (List.length buf)) <? updateLen then None
    else json_Unmarshal buf.

(** ** Sample values *)

(** The update of the scenario of the specification: a start request for
    the table [tbl1], with the id [X]. *)
Definition startTbl1 : Update :=
  {| ID := "X"; Type_ := Start; Data := Some (bytes "tbl1");
     Error := EmptyString |}.


(** A handler that leaves the update alone and fails with [disk full], and
    one that succeeds. *)
Definition diskFull : Handler := fun u => (u, Some "disk full"%string).


(** A connection that delivers one serialized update and nothing more. *)
Definition oneMessage (u : Update) : Conn := [(fst (Update_Serialize u), None)].

(** A body behind its length prefix, as [Serialize] frames it, and a
    segment of a connection that delivers it. *)
Definition framed (body : list byte) : list byte :=
  Binary.PutUint32 (Binary.uint32 (Z.of_nat (List.length body))) ++ body.

Definition segment (body : list byte) : list byte * option IOError :=
  (framed body, None).



End Updates.

(* ================================================================== *)
(** * Properties of the client connector                               *)
(* ================================================================== *)

Section RelayFacts.

Import Relay.

Lemma count_app (p : Event -> bool) (a b : list Event) :
  count p (a ++ b) = (count p a + count p b)%nat.
Proof.
  unfold count. now rewrite filter_app, length_app.
Qed.



(** The request loop sends the client-originated frames it has read, closes
    nothing and cancels at most when it breaks. *)
Lemma requestLoop_sent (reads : list ReadResult) :
  sent (fst (requestLoop reads)) = filter clientOriginated (framesRead reads).
Proof.
  induction reads as [| [frame | err] rest IH]; simpl.
  - reflexivity.
  - destruct (requestLoop rest) as [evs out]. simpl in IH.
    unfold clientOriginated at 1.
    destruct (Direction frame =? 0); simpl; now rewrite IH.
  - destruct (is_ShutdownErr err); simpl; [reflexivity |].
    destruct (is_EOF err); reflexivity.
Qed.

Lemma sent_app (a b : list Event) : sent (a ++ b) = sent a ++ sent b.
Proof. unfold sent. apply flat_map_app. Qed.

Lemma requestLoop_no_close (reads : list ReadResult) :
  count is_RequestClose (fst (requestLoop reads)) = 0%nat /\
  count is_ConnClose (fst (requestLoop reads)) = 0%nat.
Proof.
  induction reads as [| [frame | err] rest [IH1 IH2]]; simpl.
  - split; reflexivity.
  - destruct (requestLoop rest) as [evs out]. simpl in IH1, IH2.
    destruct (negb (Direction frame =? 0)); simpl; split; assumption.
  - destruct (is_ShutdownErr err); simpl; [split; reflexivity |].
    destruct (is_EOF err); split; reflexivity.
Qed.

(** The shape of the trace of the loop when some read fails. *)
Lemma requestLoop_error (reads : list ReadResult) (e : error) :
  firstError reads = Some e ->
  if is_ShutdownErr e then
    snd (requestLoop reads) = Return /\
    count is_CancelFunc (fst (requestLoop reads)) = 0%nat
  else
    snd (requestLoop reads) = Break /\
    exists pre, fst (requestLoop reads) = pre ++ [CancelFunc] /\
                count is_CancelFunc pre = 0%nat.
Proof.
  induction reads as [| [frame | err] rest IH]; simpl; intros H.
  - discriminate.
  - specialize (IH H). destruct (requestLoop rest) as [evs out]. simpl in IH.
    destruct (is_ShutdownErr e).
    + destruct IH as [-> IH].
      destruct (negb (Direction frame =? 0)); simpl; split; auto.
    + destruct IH as [-> [pre [-> Hpre]]].
      destruct (negb (Direction frame =? 0)); simpl; split; auto.
      * exists (ConnReadFrame :: pre). split; auto.
      * exists (ConnReadFrame :: RequestSend frame :: pre). split; auto.
  - injection H as ->. destruct (is_ShutdownErr e) eqn:Hs; simpl.
    + split; reflexivity.
    + split; [reflexivity |].
      exists (ConnReadFrame :: (if is_EOF e then [ConnRemoteAddr] else [])).
      split; [reflexivity |]. destruct (is_EOF e); reflexivity.
Qed.

(** C3. Direction filtering: whatever the results of the reads, the frames
    sent on the request channel are exactly the frames read with direction
    0, in the order in which they were read; a frame with another direction
    is dropped and the loop goes on with the next read. *)
Theorem request_queue_gets_client_frames (reads : list ReadResult) :
  sent (fst (requestGoroutine reads))
  = filter (fun f => Direction f =? 0) (framesRead reads).
Proof.
  unfold requestGoroutine.
  pose proof (requestLoop_sent reads) as H.
  destruct (requestLoop reads) as [evs out]. simpl in H.
  destruct out; simpl; try exact H;
    rewrite sent_app, H; simpl; apply app_nil_r.
Qed.

(** C6. Every way out of the request loop closes the request channel once:
    when a read fails, the goroutine stops with exactly one
    [close(cc.requestChannel)] in its trace. On [ShutdownErr] the cancel
    function is not called; on [io.EOF] and on any other error it is called
    once, and this call comes before the close. *)
Theorem request_queue_closed_once (reads : list ReadResult) (e : error) :
  firstError reads = Some e ->
  snd (requestGoroutine reads) = Stopped /\
  count is_RequestClose (fst (requestGoroutine reads)) = 1%nat /\
  if is_ShutdownErr e then
    count is_CancelFunc (fst (requestGoroutine reads)) = 0%nat
  else
    exists pre,
      fst (requestGoroutine reads)
      = pre ++ [CancelFunc; RequestClose; WaitGroupDone] /\
      count is_CancelFunc pre = 0%nat /\ count is_RequestClose pre = 0%nat.
Proof.
  intros H. unfold requestGoroutine.
  pose proof (requestLoop_error reads e H) as He.
  pose proof (requestLoop_no_close reads) as [Hc _].
  destruct (requestLoop reads) as [evs out]. simpl in He, Hc.
  destruct (is_ShutdownErr e).
  - destruct He as [-> Hn]. simpl.
    rewrite !count_app, Hc, Hn. repeat split; reflexivity.
  - destruct He as [-> [pre [-> Hpre]]]. simpl.
    rewrite count_app in Hc. rewrite !count_app.
    assert (count is_RequestClose pre = 0%nat) as Hp by lia.
    rewrite Hp. repeat split; try reflexivity.
    exists pre. rewrite <- app_assoc. repeat split; assumption.
Qed.

Lemma request_queue_closed_once_witness :
  let f := {| Direction := 0; FrameHeader := [x04]; FrameBody := [x01] |} in
  snd (requestGoroutine [inl f; inr EOF]) = Stopped /\
  count is_RequestClose (fst (requestGoroutine [inl f; inr EOF])) = 1%nat.
Proof.
  intros f.
  pose proof (request_queue_closed_once [inl f; inr EOF] EOF eq_refl) as H.
  split; apply H.
Defined.















End RelayFacts.

(* ================================================================== *)
(** * Properties of the reliable sender                                *)
(* ================================================================== *)

Section SendFacts.

Import Updates.







End SendFacts.

(* ================================================================== *)
(** * Bytes and big-endian integers                                    *)
(* ================================================================== *)

Section ByteFacts.

Lemma b2z_range (b : byte) : 0 <= b2z b < 256.
Proof.
  unfold b2z. pose proof (Byte.to_N_bounded b). lia.
Qed.

Lemma b2z_z2b (z : Z) : b2z (z2b z) = z mod 256.
Proof.
  unfold b2z, z2b.
  assert (0 <= z mod 256 < 256) as H by (apply Z.mod_pos_bound; lia).
  destruct (Byte.of_N (Z.to_N (z mod 256))) as [b |] eqn:Hb.
  - apply Byte.to_of_N in Hb. rewrite Hb. lia.
  - apply Byte.of_N_None_iff in Hb. lia.
Qed.

Lemma z2b_b2z (b : byte) : z2b (b2z b) = b.
Proof.
  unfold z2b. pose proof (b2z_range b) as H.
  rewrite Z.mod_small by assumption.
  unfold b2z. rewrite N2Z.id, Byte.of_to_N. reflexivity.
Qed.

Lemma b2z_inj (a b : byte) : b2z a = b2z b -> a = b.
Proof.
  intros H. rewrite <- (z2b_b2z a), <- (z2b_b2z b). now rewrite H.
Qed.

Lemma land_shiftl_low (a b n : Z) :
  0 <= n -> 0 <= a < 2 ^ n -> Z.land (Z.shiftl b n) a = 0.
Proof.
  intros Hn Ha. apply Z.bits_inj'. intros m Hm.
  rewrite Z.land_spec, Z.bits_0.
  destruct (Z.lt_ge_cases m n) as [Hlt | Hge].
  - rewrite Z.shiftl_spec_low by assumption. reflexivity.
  - destruct (Z.eq_dec a 0) as [-> | Hnz].
    + rewrite Z.bits_0. apply andb_false_r.
    + rewrite (Z.bits_above_log2 a m); [apply andb_false_r | lia |].
      apply Z.log2_lt_pow2; [lia |].
      apply Z.lt_le_trans with (2 ^ n); [lia |].
      apply Z.pow_le_mono_r; lia.
Qed.

Lemma lor_shiftl_add (a b n : Z) :
  0 <= n -> 0 <= a < 2 ^ n -> Z.lor (Z.shiftl b n) a = b * 2 ^ n + a.
Proof.
  intros Hn Ha.
  pose proof (Z.add_lor_land (Z.shiftl b n) a) as H.
  rewrite land_shiftl_low in H by assumption.
  rewrite <- (Z.shiftl_mul_pow2 b n) by assumption. lia.
Qed.

Lemma lor_add_shiftl (a b n : Z) :
  0 <= n -> 0 <= a < 2 ^ n -> Z.lor a (Z.shiftl b n) = a + b * 2 ^ n.
Proof.
  intros Hn Ha. rewrite Z.lor_comm, lor_shiftl_add by assumption. lia.
Qed.

Lemma Uint32_PutUint32 (v : Z) :
  0 <= v < 2 ^ 32 -> Binary.Uint32 (Binary.PutUint32 v) = v.
Proof.
  intros Hv. unfold Binary.Uint32, Binary.PutUint32.
  rewrite !b2z_z2b, !Z.shiftr_div_pow2 by lia.
  change (2 ^ 32) with 4294967296 in Hv.
  change (2 ^ 24) with 16777216. change (2 ^ 16) with 65536.
  change (2 ^ 8) with 256.
  assert (0 <= v mod 256 < 256) by (apply Z.mod_pos_bound; lia).
  assert (0 <= v / 256 mod 256 < 256) by (apply Z.mod_pos_bound; lia).
  assert (0 <= v / 65536 mod 256 < 256) by (apply Z.mod_pos_bound; lia).
  assert (0 <= v / 16777216 mod 256 < 256) by (apply Z.mod_pos_bound; lia).
  rewrite (lor_add_shiftl (v mod 256)) by (change (2 ^ 8) with 256; lia).
  rewrite (lor_add_shiftl _ _ 16) by (change (2 ^ 16) with 65536; lia).
  rewrite (lor_add_shiftl _ _ 24) by (change (2 ^ 24) with 16777216; lia).
  change (2 ^ 8) with 256; change (2 ^ 16) with 65536;
    change (2 ^ 24) with 16777216.
  Z.div_mod_to_equations. lia.
Qed.

Lemma PutUint32_length (v : Z) : List.length (Binary.PutUint32 v) = 4%nat.
Proof. reflexivity. Qed.

End ByteFacts.

(* ================================================================== *)
(** * Properties of the control-channel dispatcher                     *)
(* ================================================================== *)

Section DispatcherFacts.

Import Updates.

Lemma size_cons (d : list byte) (e : option IOError) (rest : Conn) :
  size ((d, e) :: rest) = (S (List.length d) + size rest)%nat.
Proof. reflexivity. Qed.

Lemma Read_size (n : nat) (src src1 : Conn) (d : list byte)
    (e : option IOError) :
  Read n src = Some (d, e, src1) -> (size src1 <= size src)%nat.
Proof.
  unfold Read. destruct n as [| n].
  - intros H. injection H as _ _ <-. lia.
  - destruct src as [| [data err] rest]; [discriminate |].
    destruct (List.length data <=? S n)%nat eqn:Hle.
    + destruct data as [| b data], err as [[| msg] |]; intros H;
        injection H as _ _ <-; rewrite ?size_cons; simpl; lia.
    + intros H. injection H as _ _ <-. rewrite !size_cons.
      pose proof (length_skipn (S n) data) as Hsk. cbn [skipn] in Hsk. lia.
Qed.

Lemma Read_size_lt (n : nat) (src src1 : Conn) (d : list byte)
    (e : option IOError) :
  Read (S n) src = Some (d, e, src1) -> is_EOF e = false ->
  (size src1 < size src)%nat.
Proof.
  unfold Read. destruct src as [| [data err] rest]; [discriminate |].
  destruct (List.length data <=? S n)%nat eqn:Hle.
  - destruct data as [| b data], err as [[| msg] |]; intros H;
      injection H as _ <- <-; rewrite ?size_cons; simpl; intros; try lia;
      discriminate.
  - intros H _. injection H as _ _ <-. rewrite !size_cons.
    pose proof (length_skipn (S n) data) as Hsk. cbn [skipn] in Hsk.
    apply Nat.leb_gt in Hle. lia.
Qed.

Lemma Read_length (n : nat) (src src1 : Conn) (d : list byte)
    (e : option IOError) :
  Read n src = Some (d, e, src1) -> (List.length d <= n)%nat.
Proof.
  unfold Read. destruct n as [| n].
  - intros H. injection H as <- _ _. simpl. lia.
  - destruct src as [| [data err] rest]; [discriminate |].
    destruct (List.length data <=? S n)%nat eqn:Hle.
    + apply Nat.leb_le in Hle.
      destruct data as [| b data], err as [[| msg] |]; intros H;
        injection H as <- _ _; simpl in *; lia.
    + intros H. injection H as <- _ _.
      pose proof (length_firstn (S n) data) as Hfi. cbn [firstn] in Hfi. lia.
Qed.

(** The loop does not depend on what the length buffer holds when a pass
    starts. *)
Lemma handlerLoop_buffer (fuel : nat) (handler : Handler) (l1 l2 : list byte)
    (src : Conn) :
  List.length l1 = 4%nat -> List.length l2 = 4%nat ->
  handlerLoop fuel handler l1 src = handlerLoop fuel handler l2 src.
Proof.
  revert l1 l2 src. induction fuel as [| fuel IH]; intros l1 l2 src H1 H2.
  - reflexivity.
  - cbn [handlerLoop].
    destruct (Read 4 src) as [[[data err] src1] |] eqn:Hr; [| reflexivity].
    pose proof (Read_length _ _ _ _ _ Hr) as Hd.
    destruct (is_EOF err); [reflexivity |].
    assert (List.length (data ++ skipn (List.length data) l1) = 4%nat) as E1
      by (rewrite length_app, length_skipn; lia).
    assert (List.length (data ++ skipn (List.length data) l2) = 4%nat) as E2
      by (rewrite length_app, length_skipn; lia).
    destruct (Z.of_nat (List.length data) <? 4) eqn:Hlt.
    + apply IH; assumption.
    + apply Z.ltb_ge in Hlt.
      assert (List.length data = 4%nat) as Hd4 by lia.
      rewrite (skipn_all2 l1), (skipn_all2 l2), app_nil_r by lia.
      reflexivity.
Qed.

Lemma handlerLoop_fuel (fuel1 fuel2 : nat) (handler : Handler)
    (l : list byte) (src : Conn) :
  (size src < fuel1)%nat -> (size src < fuel2)%nat ->
  handlerLoop fuel1 handler l src = handlerLoop fuel2 handler l src /\
  snd (handlerLoop fuel1 handler l src) <> OutOfFuel.
Proof.
  revert fuel2 l src.
  induction fuel1 as [| fuel1 IH]; intros fuel2 l src H1 H2; [lia |].
  destruct fuel2 as [| fuel2]; [lia |].
  cbn [handlerLoop].
  destruct (Read 4 src) as [[[data err] src1] |] eqn:Hr;
    [| split; [reflexivity | discriminate]].
  destruct (is_EOF err) eqn:He; [split; [reflexivity | discriminate] |].
  pose proof (Read_size_lt _ _ _ _ _ Hr He) as Hs1.
  destruct (Z.of_nat (List.length data) <? 4).
  - apply IH; lia.
  - destruct (Read (Z.to_nat (Binary.Uint32
                (data ++ skipn (List.length data) l))) src1)
      as [[[buf e2] src2] |] eqn:Hr2; [| split; [reflexivity | discriminate]].
    pose proof (Read_size _ _ _ _ _ Hr2) as Hs2.
    destruct (IH fuel2 (data ++ skipn (List.length data) l) src2
                ltac:(lia) ltac:(lia)) as [Heq Hne].
    rewrite <- Heq.
    destruct (Binary.uint32 (Z.of_nat (List.length buf))
              <? Binary.Uint32 (data ++ skipn (List.length data) l));
      [split; [reflexivity | assumption] |].
    destruct (json_Unmarshal buf) as [update |];
      [| split; [reflexivity | assumption]].
    destruct (handler update) as [update' handlerErr].
    destruct (handlerLoop fuel1 handler
                (data ++ skipn (List.length data) l) src2) as [evs out].
    destruct (negb (Type_ update' =? Success)
              && negb (Type_ update' =? Failure)).
    + destruct handlerErr as [e |]; cbn [Update_Failure].
      * split; [reflexivity | discriminate].
      * destruct (Update_Success update') as [resp rerr].
        split; [reflexivity | assumption].
    + split; [reflexivity | assumption].
Qed.

(** [CommunicationHandler] never runs out of the fuel it starts with. *)
Lemma CommunicationHandler_total (src : Conn) (handler : Handler) :
  snd (CommunicationHandler src handler) <> OutOfFuel.
Proof.
  unfold CommunicationHandler.
  apply (handlerLoop_fuel (S (size src)) (S (size src))); lia.
Qed.

Lemma Read_framed (body : list byte) (rest : Conn) :
  body <> [] ->
  Read 4 (segment body :: rest)
  = Some (Binary.PutUint32 (Binary.uint32 (Z.of_nat (List.length body))),
          None, (body, None) :: rest).
Proof.
  intros Hb. destruct body as [| b body]; [congruence |].
  reflexivity.
Qed.

Lemma Read_body (body : list byte) (rest : Conn) :
  body <> [] ->
  Read (List.length body) ((body, None) :: rest) = Some (body, None, rest).
Proof.
  intros Hb. destruct body as [| b body]; [congruence |].
  unfold Read. cbn [List.length]. rewrite Nat.leb_refl. reflexivity.
Qed.

Lemma json_Unmarshal_nil : json_Unmarshal [] = None.
Proof. reflexivity. Qed.

(** One pass of the loop over a segment that holds a whole framed body
    which decodes to [u]. *)
Lemma handlerLoop_message (fuel : nat) (handler : Handler)
    (length body : list byte) (u : Update) (rest : Conn) :
  List.length length = 4%nat ->
  json_Unmarshal body = Some u ->
  Z.of_nat (List.length body) < 2 ^ 32 ->
  handlerLoop (S fuel) handler length (segment body :: rest)
  = let (update, handlerErr) := handler u in
    let next :=
      handlerLoop fuel handler
        (Binary.PutUint32 (Binary.uint32 (Z.of_nat (List.length body)))) rest in
    if negb (Type_ update =? Success) && negb (Type_ update =? Failure) then
      match handlerErr with
      | Some _ => ([HandlerCall update; SrcClose], Panic)
      | None =>
          (HandlerCall update :: DstWrite (fst (Update_Success update))
             :: fst next, snd next)
      end
    else (HandlerCall update :: fst next, snd next).
Proof.
  intros Hbuf Hu Hlen.
  assert (body <> []) as Hb by (intros ->; discriminate).
  cbn [handlerLoop]. rewrite (Read_framed body rest Hb).
  cbn [is_EOF]. rewrite PutUint32_length.
  change (Z.of_nat 4 <? 4) with false. cbv iota.
  rewrite skipn_all2 by lia. rewrite app_nil_r.
  assert (Binary.uint32 (Z.of_nat (List.length body))
          = Z.of_nat (List.length body)) as Hu32
    by (unfold Binary.uint32; apply Z.mod_small; lia).
  rewrite Uint32_PutUint32 by (rewrite Hu32; lia).
  rewrite Hu32, Nat2Z.id, (Read_body body rest Hb).
  rewrite Hu32, Z.ltb_irrefl, Hu.
  destruct (handler u) as [update handlerErr].
  destruct (handlerLoop fuel handler
              (Binary.PutUint32 (Z.of_nat (List.length body))) rest)
    as [evs out].
  destruct (negb (Type_ update =? Success) && negb (Type_ update =? Failure));
    [| reflexivity].
  destruct handlerErr as [e |]; [reflexivity |].
  cbn [Update_Failure]. destruct (Update_Success update) as [resp rerr].
  reflexivity.
Qed.

(** The same pass at the start of [CommunicationHandler]: what follows it
    is what [CommunicationHandler] does on the rest of the stream. *)
Lemma CommunicationHandler_message (handler : Handler) (body : list byte)
    (u : Update) (rest : Conn) :
  json_Unmarshal body = Some u ->
  Z.of_nat (List.length body) < 2 ^ 32 ->
  CommunicationHandler (segment body :: rest) handler
  = let (update, handlerErr) := handler u in
    let next := CommunicationHandler rest handler in
    if negb (Type_ update =? Success) && negb (Type_ update =? Failure) then
      match handlerErr with
      | Some _ => ([HandlerCall update; SrcClose], Panic)
      | None =>
          (HandlerCall update :: DstWrite (fst (Update_Success update))
             :: fst next, snd next)
      end
    else (HandlerCall update :: fst next, snd next).
Proof.
  intros Hu Hlen. unfold CommunicationHandler at 1.
  rewrite (handlerLoop_message _ _ [x00; x00; x00; x00] _ u _ eq_refl Hu Hlen).
  assert (handlerLoop (size (segment body :: rest)) handler
            (Binary.PutUint32 (Binary.uint32 (Z.of_nat (List.length body))))
            rest
          = CommunicationHandler rest handler) as ->; [| reflexivity].
  unfold CommunicationHandler.
  rewrite (handlerLoop_buffer _ _ _ [x00; x00; x00; x00]) by reflexivity.
  apply handlerLoop_fuel; unfold segment; rewrite ?size_cons; lia.
Qed.

(** A read of the length prefix that reports the end of the stream ends
    the process with status 100. *)
Lemma end_of_stream_exits (src src1 : Conn) (handler : Handler)
    (data : list byte) :
  Read 4 src = Some (data, Some EOF, src1) ->
  CommunicationHandler src handler = ([], Exit 100).
Proof.
  intros H. unfold CommunicationHandler. cbn [handlerLoop]. rewrite H.
  reflexivity.
Qed.


(** C5, where the code departs from it. Besides the end of the stream at
    the read of the length prefix, an error of the handler on a
    non-acknowledgment update ends the process: the loop calls
    [update.Failure(err)] with the nil [err] left by [json.Unmarshal], not
    with [handlerErr], and [err.Error()] panics. *)
Theorem handler_error_ends_process (handler : Handler) (body : list byte)
    (u : Update) (text : string) (rest : Conn) :
  json_Unmarshal body = Some u ->
  Z.of_nat (List.length body) < 2 ^ 32 ->
  Type_ (fst (handler u)) <> Success ->
  Type_ (fst (handler u)) <> Failure ->
  snd (handler u) = Some text ->
  CommunicationHandler (segment body :: rest) handler
  = ([HandlerCall (fst (handler u)); SrcClose], Panic).
Proof.
  intros Hu Hlen Hs Hf He.
  rewrite (CommunicationHandler_message _ _ u _ Hu Hlen).
  destruct (handler u) as [update handlerErr]. cbn [fst snd] in *. subst.
  apply Z.eqb_neq in Hs, Hf. rewrite Hs, Hf. reflexivity.
Qed.

(** The success half of the acknowledgment rule: one write, of the
    serialized success response that carries the id of the update. *)
Lemma handler_success_acknowledged (handler : Handler) (body : list byte)
    (u : Update) (rest : Conn) :
  json_Unmarshal body = Some u ->
  Z.of_nat (List.length body) < 2 ^ 32 ->
  Type_ (fst (handler u)) <> Success ->
  Type_ (fst (handler u)) <> Failure ->
  snd (handler u) = None ->
  fst (CommunicationHandler (segment body :: rest) handler)
  = HandlerCall (fst (handler u))
    :: DstWrite (fst (Update_Serialize
                  {| ID := ID (fst (handler u)); Type_ := Success;
                     Data := None; Error := EmptyString |}))
    :: fst (CommunicationHandler rest handler).
Proof.
  intros Hu Hlen Hs Hf He.
  rewrite (CommunicationHandler_message _ _ u _ Hu Hlen).
  destruct (handler u) as [update handlerErr]. cbn [fst snd] in *. subst.
  apply Z.eqb_neq in Hs, Hf. rewrite Hs, Hf. reflexivity.
Qed.


Lemma handler_error_ends_process_witness :
  CommunicationHandler [segment (marshalText startTbl1)] diskFull
  = ([HandlerCall startTbl1; SrcClose], Panic).
Proof.
  apply (handler_error_ends_process diskFull (marshalText startTbl1)
           startTbl1 "disk full"%string []).
  - vm_compute. reflexivity.
  - vm_compute. reflexivity.
  - vm_compute. discriminate.
  - vm_compute. discriminate.
  - reflexivity.
Defined.

(** C1, where the code departs from it. The start request [X] for [tbl1]
    is decoded and handed to a handler that fails with [disk full]: the
    process panics and no failure response (nothing at all) has been
    written to the destination. *)
Theorem failing_handler_gets_no_failure_response :
  CommunicationHandler (oneMessage startTbl1) diskFull
  = ([HandlerCall startTbl1; SrcClose], Panic) /\
  dstWrites (fst (CommunicationHandler (oneMessage startTbl1) diskFull)) = [].
Proof. split; vm_compute; reflexivity. Qed.

End DispatcherFacts.
